(** * Text2MCPL: the text-to-MCPL neutron converter

    A shallow embedding of [src/McStas/Text2MCPL.C].  The program is I/O glue
    around an opaque particle-list writer, so [main] is modelled as a function
    from its environment (command line, readable files) to an exit code and
    the sequence of library calls it performs.  C [double]s are IEEE binary64
    values, embedded as primitive floats; every arithmetic operation of the
    source is the correspondingly rounded operation here, taken in the order
    the C expressions associate. *)

From Stdlib Require Import Floats ZArith List String Bool Lia.
Import ListNotations.

Local Open Scope string_scope.
Local Open Scope list_scope.

(** ** Numbers *)

(** C [double]. *)
Definition double : Type := float.
Bind Scope float_scope with double.

(** The literal [1.0e-5], rounded to the nearest binary64 value. *)
Definition tolerance : double := 0x1.4f8b588e368f1p-17%float.

(** [++] on an [int]: values stay in the 32-bit two's complement range. *)
Definition INT_MAX : Z := 2147483647.

Definition int_incr (i : Z) : Z :=
  if (i + 1 >? INT_MAX)%Z then (i + 1 - 4294967296)%Z else (i + 1)%Z.

(** ** Shapes of binary64 values

    Predicates on the specification-level view [Prim2SF d] of a [double]. *)
Module Binary64.

(** The value is a number: not a NaN. *)
Definition number (x : spec_float) : Prop := x <> S754_nan.

(** The value is a number with the sign bit clear. *)
Definition nonneg (x : spec_float) : Prop :=
  match x with
  | S754_zero false | S754_infinity false | S754_finite false _ _ => True
  | _ => False
  end.

(** The value is a zero or a finite number. *)
Definition finite (x : spec_float) : Prop :=
  match x with
  | S754_zero _ | S754_finite _ _ _ => True
  | _ => False
  end.

(** The value is a number of sign [s]. *)
Definition signed (s : bool) (x : spec_float) : Prop :=
  match x with
  | S754_zero s' | S754_infinity s' | S754_finite s' _ _ => s' = s
  | S754_nan => False
  end.

End Binary64.

(** ** The input stream

    [fscanf] with seven [%lf] directives sees the text as a sequence of
    conversion attempts: each either yields a [double] (any spelling [strtod]
    accepts, so also [inf] and [nan]) or fails on something that is not a
    number.  The end of the list is the end of the file. *)
Inductive conversion : Type :=
| Num (d : double)
| Junk.

Definition FILE : Type := list conversion.

Definition EOF : Z := (-1)%Z.

(** The first [n] conversions, stopping at the first one that fails. *)
Fixpoint convert (n : nat) (f : FILE) : list double * FILE :=
  match n, f with
  | S n', Num d :: f' => let (ds, rest) := convert n' f' in (d :: ds, rest)
  | _, _ => ([], f)
  end.

(** Return value of [fscanf(f, "%lf %lf %lf %lf %lf %lf %lf", ...)]: the number
    of fields assigned, or [EOF] when the input ends before the first one. *)
Definition fscanf (f : FILE) : Z :=
  match convert 7 f with
  | ([], []) => EOF
  | (ds, _) => Z.of_nat (List.length ds)
  end.

(** ** Particles and library calls *)

(** Modelled from the spec: the record type [mcpl_particle_t] is declared in
    [mcpl.h], which is not among the sources; the fields are the ones the loop
    assigns (spec section 3), [weight] holding the [int] the source stores. *)
Record mcpl_particle_t : Type := mk_particle {
  position : double * double * double;
  pdgcode : Z;
  ekin : double;
  direction : double * double * double;
  weight : Z
}.

Definition set_position (p : mcpl_particle_t) (v : double * double * double) :=
  mk_particle v (pdgcode p) (ekin p) (direction p) (weight p).
Definition set_pdgcode (p : mcpl_particle_t) (c : Z) :=
  mk_particle (position p) c (ekin p) (direction p) (weight p).
Definition set_ekin (p : mcpl_particle_t) (e : double) :=
  mk_particle (position p) (pdgcode p) e (direction p) (weight p).
Definition set_direction (p : mcpl_particle_t) (v : double * double * double) :=
  mk_particle (position p) (pdgcode p) (ekin p) v (weight p).
Definition set_weight (p : mcpl_particle_t) (w : Z) :=
  mk_particle (position p) (pdgcode p) (ekin p) (direction p) w.

(** What [printf] writes, one constructor per format string. *)
Inductive message : Type :=
| Usage (prog : string)
| ErrorOpeningInputFile (input_file : string)
| SkippingLengthIsZero (ind : Z)
| DebuggingLineDirsq (dirsq : double)
| SkippingNotNormalized (ind : Z)
| ParticleAdded (ind : Z).

(** The calls [main] makes, in program order.  There is one input handle and
    one output handle, so calls do not name them.  [mcpl_add_particle] carries
    the contents of [*particle] at the time of the call. *)
Inductive call : Type :=
| printf (m : message)
| fopen (path : string) (opened : bool)
| mcpl_create_outfile (path : string)
| mcpl_hdr_set_srcname (name : string)
| mcpl_hdr_add_comment (comment : string)
| mcpl_add_particle (p : mcpl_particle_t)
| mcpl_closeandgzip_outfile
| fclose.

(** ** The loop body *)

Local Open Scope float_scope.

(** [sqrt(px * px + py * py + pz * pz)] *)
Definition momentum_length (px py pz : double) : double :=
  PrimFloat.sqrt (px * px + py * py + pz * pz).

(** [normalized_dx], [normalized_dy], [normalized_dz] *)
Definition normalized (px py pz : double) : double * double * double :=
  let length := momentum_length px py pz in
  (px / length, py / length, pz / length).

(** Squared magnitude of a vector, summed as the source sums it. *)
Definition magsq (v : double * double * double) : double :=
  let '(dx, dy, dz) := v in dx * dx + dy * dy + dz * dz.

Definition dirsq_of (px py pz : double) : double := magsq (normalized px py pz).

Definition pdg_num_neutron : Z := 2112%Z.

(** One iteration, after a successful seven-field scan: the calls it makes
    and the contents of [*particle] afterwards. *)
Definition loop_body (ind : Z) (particle : mcpl_particle_t)
    (hit_x hit_y hit_z px py pz kinetic_energy : double)
  : list call * mcpl_particle_t :=
  let weight := 1%Z in
  let length := momentum_length px py pz in
  if PrimFloat.eqb length 0 then
    ([printf (SkippingLengthIsZero ind)], particle)
  else
    let '(normalized_dx, normalized_dy, normalized_dz) := normalized px py pz in
    let dirsq := magsq (normalized_dx, normalized_dy, normalized_dz) in
    if PrimFloat.ltb tolerance (abs (dirsq - 1)) then
      ([printf (DebuggingLineDirsq dirsq); printf (SkippingNotNormalized ind)],
       particle)
    else
      let particle := set_position particle (hit_x, hit_y, hit_z) in
      let particle := set_pdgcode particle pdg_num_neutron in
      let particle := set_ekin particle kinetic_energy in
      let particle :=
        set_direction particle (normalized_dx, normalized_dy, normalized_dz) in
      let particle := set_weight particle weight in
      ([printf (DebuggingLineDirsq dirsq); mcpl_add_particle particle;
        printf (ParticleAdded ind)],
       particle).

Local Close Scope float_scope.

(** ** The read loop

    [while (fscanf(...) == 7) { body; ind++ }]: the scan succeeds exactly when
    the stream starts with seven numbers, which it consumes. *)
Fixpoint read_loop (f : FILE) (ind : Z) (particle : mcpl_particle_t)
  : list call :=
  match f with
  | Num hit_x :: Num hit_y :: Num hit_z :: Num px :: Num py :: Num pz
      :: Num kinetic_energy :: rest =>
      let (calls, particle') :=
        loop_body ind particle hit_x hit_y hit_z px py pz kinetic_energy in
      calls ++ read_loop rest (int_incr ind) particle'
  | _ => []
  end.

(** ** [main] *)

(** The readable text files: [fopen(path, "r")] succeeds exactly on the paths
    that have contents. *)
Definition filesystem : Type := string -> option FILE.

Definition header_comment : string := "Extracting Neutrons from the txt file".

(** [main], as a function of the readable files and the command line.  The
    source assigns through [particle] without declaring it; what [*particle]
    holds on entry is a parameter. *)
Definition main (fs : filesystem) (particle : mcpl_particle_t)
    (argv : list string) : Z * list call :=
  let argc := Z.of_nat (List.length argv) in
  if negb (argc =? 3)%Z then
    (1%Z, [printf (Usage (nth 0 argv ""))])
  else
    let input_file := nth 1 argv "" in
    let output_file := nth 2 argv "" in
    match fs input_file with
    | None =>
        (1%Z, [fopen input_file false;
               printf (ErrorOpeningInputFile input_file)])
    | Some f =>
        (0%Z,
         [fopen input_file true;
          mcpl_create_outfile output_file;
          mcpl_hdr_set_srcname output_file;
          mcpl_hdr_add_comment header_comment]
         ++ read_loop f 0%Z particle
         ++ [mcpl_closeandgzip_outfile; fclose])
    end.

(** ** Reading a trace *)

(** The records handed to [mcpl_add_particle], in call order. *)
Definition added (tr : list call) : list mcpl_particle_t :=
  flat_map (fun c => match c with mcpl_add_particle p => [p] | _ => [] end) tr.

Definition created (tr : list call) : list string :=
  flat_map (fun c => match c with mcpl_create_outfile s => [s] | _ => [] end) tr.

Definition srcnames (tr : list call) : list string :=
  flat_map (fun c => match c with mcpl_hdr_set_srcname s => [s] | _ => [] end) tr.

Definition comments (tr : list call) : list string :=
  flat_map (fun c => match c with mcpl_hdr_add_comment s => [s] | _ => [] end) tr.

Definition printed (tr : list call) : list message :=
  flat_map (fun c => match c with printf m => [m] | _ => [] end) tr.

Definition is_closeandgzip (c : call) : bool :=
  match c with mcpl_closeandgzip_outfile => true | _ => false end.

Definition is_fclose (c : call) : bool :=
  match c with fclose => true | _ => false end.

Definition count (P : call -> bool) (tr : list call) : nat :=
  List.length (filter P tr).

(** The diagnostics of the two skip paths. *)
Definition is_skip (c : call) : bool :=
  match c with
  | printf (SkippingLengthIsZero _) | printf (SkippingNotNormalized _) => true
  | _ => false
  end.

(** The calls of a run that opens its input, before and after the loop. *)
Definition prologue (input_file output_file : string) : list call :=
  [fopen input_file true; mcpl_create_outfile output_file;
   mcpl_hdr_set_srcname output_file; mcpl_hdr_add_comment header_comment].

Definition epilogue : list call := [mcpl_closeandgzip_outfile; fclose].

(** ** Sample environment *)

(** A zeroed particle, for runs on concrete inputs. *)
Definition blank_particle : mcpl_particle_t :=
  mk_particle (0, 0, 0)%float 0%Z 0%float (0, 0, 0)%float 0%Z.

(** A particle that has been written to before. *)
Definition used_particle : mcpl_particle_t :=
  mk_particle (1, 2, 3)%float 11%Z 4%float (0, 0, 1)%float 7%Z.

Definition sample_argv : list string := ["Text2MCPL"; "in.txt"; "out.mcpl"].

(** A file system whose only readable file is [path]. *)
Definition only_file (path : string) (f : FILE) : filesystem :=
  fun p => if String.eqb p path then Some f else None.

(** ** Records, as the specification speaks of them *)

(** One complete seven-field record [x y z px py pz ekin]. *)
Record hit : Type := mk_hit {
  hx : double; hy : double; hz : double;
  hpx : double; hpy : double; hpz : double;
  hekin : double
}.

Definition fields (h : hit) : FILE :=
  [Num (hx h); Num (hy h); Num (hz h); Num (hpx h); Num (hpy h); Num (hpz h);
   Num (hekin h)].

Definition encode (hs : list hit) : FILE := flat_map fields hs.

(** The complete records in front of the first scan that fails. *)
Fixpoint parsed (f : FILE) : list hit :=
  match f with
  | Num x :: Num y :: Num z :: Num px :: Num py :: Num pz :: Num e :: rest =>
      mk_hit x y z px py pz e :: parsed rest
  | _ => []
  end.

(** The two tests of the loop body, as the source writes them. *)
Definition zero_length (h : hit) : bool :=
  PrimFloat.eqb (momentum_length (hpx h) (hpy h) (hpz h)) 0.

Definition not_normalized (h : hit) : bool :=
  PrimFloat.ltb tolerance (abs (dirsq_of (hpx h) (hpy h) (hpz h) - 1)).

Definition skipped (h : hit) : bool := zero_length h || not_normalized h.

Definition accepted (h : hit) : bool := negb (skipped h).

(** The record the specification expects for an accepted hit. *)
Definition record_of (h : hit) : mcpl_particle_t :=
  mk_particle (hx h, hy h, hz h) 2112%Z (hekin h)
              (normalized (hpx h) (hpy h) (hpz h)) 1%Z.

Definition body_of (ind : Z) (particle : mcpl_particle_t) (h : hit) :=
  loop_body ind particle (hx h) (hy h) (hz h) (hpx h) (hpy h) (hpz h) (hekin h).

(** What the specification asks of a direction: the momentum is strictly
    positive and the squared magnitude is within the tolerance of one. *)
Definition positive_length (px py pz : double) : bool :=
  PrimFloat.ltb 0 (momentum_length px py pz).

Definition within_tolerance (d : double) : bool :=
  PrimFloat.leb (abs (d - 1)) tolerance.

(** Magnitude of a vector. *)
Definition magnitude (v : double * double * double) : double :=
  PrimFloat.sqrt (magsq v).

(** ** Further readings of a run *)

(** The two tests of the loop body as a function of the momentum alone: the
    length is not equal to zero and the squared magnitude of the direction
    is not further than the tolerance from one. *)
Definition momentum_passes (px py pz : double) : bool :=
  negb (PrimFloat.eqb (momentum_length px py pz) 0)
  && negb (PrimFloat.ltb tolerance (abs (dirsq_of px py pz - 1))).

Definition is_fopen_ok (c : call) : bool :=
  match c with fopen _ true => true | _ => false end.

(** The record indices of the three per-record status lines, in order. *)
Definition status_indices (tr : list call) : list Z :=
  flat_map (fun c => match c with
                     | printf (SkippingLengthIsZero i)
                     | printf (SkippingNotNormalized i)
                     | printf (ParticleAdded i) => [i]
                     | _ => []
                     end) tr.

(** The record indices announced as added. *)
Definition added_indices (tr : list call) : list Z :=
  flat_map (fun c => match c with printf (ParticleAdded i) => [i] | _ => [] end)
           tr.

(** The positions of the accepted records among [hs], counted from [i]. *)
Fixpoint accepted_positions (i : nat) (hs : list hit) : list Z :=
  match hs with
  | [] => []
  | h :: hs' =>
      (if accepted h then [Z.of_nat i] else [])
      ++ accepted_positions (S i) hs'
  end.

(** The order in which a sink may be driven: created, then its header
    written, then particles added, then closed; nothing before its creation
    and nothing after its closing. *)
Inductive sink_state : Type :=
| NoSink | HeaderOpen | ParticlesOpen | SinkClosed | Misused.

Definition sink_step (st : sink_state) (c : call) : sink_state :=
  match c, st with
  | mcpl_create_outfile _, NoSink => HeaderOpen
  | mcpl_hdr_set_srcname _, HeaderOpen => HeaderOpen
  | mcpl_hdr_add_comment _, HeaderOpen => HeaderOpen
  | mcpl_add_particle _, (HeaderOpen | ParticlesOpen) => ParticlesOpen
  | mcpl_closeandgzip_outfile, (HeaderOpen | ParticlesOpen) => SinkClosed
  | (printf _ | fopen _ _ | fclose), _ => st
  | _, _ => Misused
  end.

Definition sink_run (tr : list call) (st : sink_state) : sink_state :=
  fold_left sink_step tr st.

(** A record with its direction reversed. *)
Definition reverse_direction (p : mcpl_particle_t) : mcpl_particle_t :=
  let '(dx, dy, dz) := direction p in
  set_direction p ((- dx)%float, (- dy)%float, (- dz)%float).

(** A binary64 value that is a NaN or has its sign bit clear. *)
Definition nan_or_nonneg (x : spec_float) : Prop :=
  x = S754_nan \/ Binary64.nonneg x.

(** * Properties *)

(** ** Streams *)

Lemma convert_fields (h : hit) (rest : FILE) :
  convert 7 (fields h ++ rest) =
  ([hx h; hy h; hz h; hpx h; hpy h; hpz h; hekin h], rest).
Proof. reflexivity. Qed.

Lemma fscanf_fields (h : hit) (rest : FILE) : fscanf (fields h ++ rest) = 7%Z.
Proof. reflexivity. Qed.

(** A scan assigns seven fields exactly when seven numbers are in front. *)
Lemma fscanf_7_inv (f : FILE) :
  fscanf f = 7%Z -> exists h rest, f = fields h ++ rest.
Proof.
  intros H.
  destruct f as [|[x|] [|[y|] [|[z|] [|[px|] [|[py|] [|[pz|] [|[e|] rest]]]]]]];
    try (cbv in H; discriminate).
  exists (mk_hit x y z px py pz e), rest. reflexivity.
Qed.

Lemma fscanf_range (f : FILE) : (fscanf f = EOF \/ 0 <= fscanf f <= 7)%Z.
Proof.
  destruct f as [|[x|] [|[y|] [|[z|] [|[px|] [|[py|] [|[pz|] [|[e|] rest]]]]]]];
    cbv; intuition discriminate.
Qed.

Lemma read_loop_fields (h : hit) (rest : FILE) ind particle :
  read_loop (fields h ++ rest) ind particle =
  fst (body_of ind particle h)
  ++ read_loop rest (int_incr ind) (snd (body_of ind particle h)).
Proof.
  unfold body_of. cbn [fields app read_loop].
  destruct (loop_body _ _ _ _ _ _ _ _ _). reflexivity.
Qed.

Lemma parsed_fields (h : hit) (rest : FILE) :
  parsed (fields h ++ rest) = h :: parsed rest.
Proof. destruct h. reflexivity. Qed.

(** The loop stops, doing nothing more, as soon as a scan assigns fewer than
    seven fields. *)
Lemma read_loop_stop (f : FILE) ind particle :
  fscanf f <> 7%Z -> read_loop f ind particle = [].
Proof.
  intros H.
  destruct f as [|[x|] [|[y|] [|[z|] [|[px|] [|[py|] [|[pz|] [|[e|] rest]]]]]]];
    try reflexivity.
  exfalso. apply H. reflexivity.
Qed.

Lemma parsed_stop (f : FILE) : fscanf f <> 7%Z -> parsed f = [].
Proof.
  intros H.
  destruct f as [|[x|] [|[y|] [|[z|] [|[px|] [|[py|] [|[pz|] [|[e|] rest]]]]]]];
    try reflexivity.
  exfalso. apply H. reflexivity.
Qed.

(** Every stream is its complete records followed by a tail on which the
    scan fails. *)
Lemma FILE_split (f : FILE) :
  exists tail, f = encode (parsed f) ++ tail /\ fscanf tail <> 7%Z.
Proof.
  revert f. fix IH 1. intros f.
  destruct f as [|[x|] [|[y|] [|[z|] [|[px|] [|[py|] [|[pz|] [|[e|] rest]]]]]]];
    try (eexists; split; [reflexivity | cbv; discriminate]).
  destruct (IH rest) as (tail & E & Ht).
  exists tail. split; [| exact Ht].
  cbn [parsed encode flat_map fields hx hy hz hpx hpy hpz hekin app].
  fold (encode (parsed rest)). rewrite <- E. reflexivity.
Qed.

Lemma encode_cons (h : hit) (hs : list hit) :
  encode (h :: hs) = fields h ++ encode hs.
Proof. reflexivity. Qed.

Lemma parsed_encode (hs : list hit) (tail : FILE) :
  fscanf tail <> 7%Z -> parsed (encode hs ++ tail) = hs.
Proof.
  intros Ht. induction hs as [|h hs IH].
  - apply parsed_stop, Ht.
  - rewrite encode_cons, <- app_assoc, parsed_fields, IH. reflexivity.
Qed.

(** ** Traces *)

Lemma added_app (t1 t2 : list call) : added (t1 ++ t2) = added t1 ++ added t2.
Proof. apply flat_map_app. Qed.

Lemma count_app (P : call -> bool) (t1 t2 : list call) :
  count P (t1 ++ t2) = count P t1 + count P t2.
Proof. unfold count. rewrite filter_app, length_app. reflexivity. Qed.

(** ** The loop body *)

(** The body in terms of the two tests. *)
Lemma body_of_eq ind particle (h : hit) :
  body_of ind particle h =
  if zero_length h then ([printf (SkippingLengthIsZero ind)], particle)
  else if not_normalized h then
    ([printf (DebuggingLineDirsq (dirsq_of (hpx h) (hpy h) (hpz h)));
      printf (SkippingNotNormalized ind)], particle)
  else
    ([printf (DebuggingLineDirsq (dirsq_of (hpx h) (hpy h) (hpz h)));
      mcpl_add_particle (record_of h); printf (ParticleAdded ind)],
     record_of h).
Proof.
  unfold body_of, loop_body, zero_length, not_normalized, dirsq_of, record_of.
  destruct (PrimFloat.eqb _ 0); [reflexivity |].
  destruct (normalized _ _ _) as [[dx dy] dz].
  destruct (PrimFloat.ltb _ _); reflexivity.
Qed.

Lemma added_body ind particle (h : hit) :
  added (fst (body_of ind particle h)) =
  if accepted h then [record_of h] else [].
Proof.
  rewrite body_of_eq. unfold accepted, skipped.
  destruct (zero_length h); [reflexivity |].
  destruct (not_normalized h); reflexivity.
Qed.

(** The body never calls anything but [printf] and [mcpl_add_particle]. *)
Lemma count_body (P : call -> bool) ind particle (h : hit) :
  (forall m, P (printf m) = false) ->
  (forall p, P (mcpl_add_particle p) = false) ->
  count P (fst (body_of ind particle h)) = 0.
Proof.
  intros Hm Hp. rewrite body_of_eq. unfold count.
  destruct (zero_length h); [| destruct (not_normalized h)];
    cbn [fst filter]; rewrite ?Hm, ?Hp; reflexivity.
Qed.

(** ** The read loop over complete records *)

Lemma read_loop_encode (hs : list hit) (tail : FILE) :
  fscanf tail <> 7%Z ->
  forall ind particle,
    read_loop (encode hs ++ tail) ind particle =
    read_loop (encode hs) ind particle.
Proof.
  intros Ht. induction hs as [|h hs IH]; intros ind particle.
  - cbn [encode flat_map app]. apply read_loop_stop, Ht.
  - rewrite encode_cons, <- app_assoc, read_loop_fields, IH.
    rewrite <- (app_nil_r (encode hs)) at 2.
    rewrite read_loop_fields, app_nil_r. reflexivity.
Qed.

Lemma added_read_loop_encode (hs : list hit) ind particle :
  added (read_loop (encode hs) ind particle) =
  map record_of (filter accepted hs).
Proof.
  revert ind particle. induction hs as [|h hs IH]; intros ind particle.
  - reflexivity.
  - rewrite encode_cons. rewrite <- (app_nil_r (encode hs)).
    rewrite read_loop_fields, app_nil_r, added_app, added_body, IH.
    cbn [filter]. destruct (accepted h); reflexivity.
Qed.

Lemma added_read_loop (f : FILE) ind particle :
  added (read_loop f ind particle) = map record_of (filter accepted (parsed f)).
Proof.
  destruct (FILE_split f) as (tail & E & Ht).
  rewrite E at 1. rewrite read_loop_encode by exact Ht.
  apply added_read_loop_encode.
Qed.

Lemma count_read_loop (P : call -> bool) (f : FILE) ind particle :
  (forall m, P (printf m) = false) ->
  (forall p, P (mcpl_add_particle p) = false) ->
  count P (read_loop f ind particle) = 0.
Proof.
  intros Hm Hp.
  destruct (FILE_split f) as (tail & E & Ht).
  rewrite E. rewrite read_loop_encode by exact Ht.
  clear E. revert ind particle.
  induction (parsed f) as [|h hs IH]; intros ind particle; [reflexivity |].
  rewrite encode_cons. rewrite <- (app_nil_r (encode hs)).
  rewrite read_loop_fields, app_nil_r, count_app, IH.
  rewrite (count_body P ind particle h Hm Hp). reflexivity.
Qed.

Lemma filter_split_length {A} (p : A -> bool) (l : list A) :
  List.length (filter (fun a => negb (p a)) l) =
  List.length l - List.length (filter p l).
Proof.
  induction l as [|a l IH]; [reflexivity |].
  pose proof (filter_length_le p l) as Hle.
  cbn [filter]. destruct (p a); cbn [negb List.length]; lia.
Qed.

(** ** Binary64 arithmetic: signs and NaNs *)

Section Binary64Facts.
Import Binary64.

Lemma signed_false_nonneg x : signed false x -> nonneg x.
Proof. destruct x as [[|]|[|]| |[|] m e]; cbn; intros H; try discriminate; tauto. Qed.

Lemma nonneg_number x : nonneg x -> number x.
Proof. destruct x as [[|]|[|]| |[|] m e]; cbn; intros H E; try discriminate; tauto. Qed.

Lemma signed_number s x : signed s x -> number x.
Proof. destruct x; cbn; intros H E; try discriminate; tauto. Qed.

Lemma shr_1_nonneg mrs : (0 <= shr_m mrs -> 0 <= shr_m (shr_1 mrs))%Z.
Proof.
  destruct mrs as [m r s]. destruct m as [|[p|p|]|p]; cbn; lia.
Qed.

Lemma iter_shr_1_nonneg p :
  forall mrs, (0 <= shr_m mrs -> 0 <= shr_m (SpecFloat.iter_pos shr_1 p mrs))%Z.
Proof.
  induction p as [p IH|p IH|]; intros mrs H; cbn.
  - apply IH, IH, shr_1_nonneg, H.
  - apply IH, IH, H.
  - apply shr_1_nonneg, H.
Qed.

Lemma shr_fexp_nonneg m e l :
  (0 <= m -> 0 <= shr_m (fst (shr_fexp prec emax m e l)))%Z.
Proof.
  intros H. unfold shr_fexp, shr.
  assert (H0 : (0 <= shr_m (shr_record_of_loc m l))%Z)
    by (destruct l as [|[| |]]; exact H).
  destruct (_ - e)%Z; cbn [fst]; try exact H0.
  apply iter_shr_1_nonneg, H0.
Qed.

Lemma round_nearest_even_nonneg m l :
  (0 <= m -> 0 <= round_nearest_even m l)%Z.
Proof.
  intros H. destruct l as [|[| |]]; cbn; try destruct (Z.even m); lia.
Qed.

(** Rounding a non-negative mantissa gives a number of the requested sign. *)
Lemma binary_round_aux_signed s mx ex lx :
  (0 <= mx)%Z -> signed s (binary_round_aux prec emax s mx ex lx).
Proof.
  intros H. unfold binary_round_aux.
  pose proof (shr_fexp_nonneg mx ex lx H) as H1.
  destruct (shr_fexp prec emax mx ex lx) as [mrs' e']. cbn [fst] in H1.
  pose proof (shr_fexp_nonneg _ e' loc_Exact
                (round_nearest_even_nonneg _ (loc_of_shr_record mrs') H1)) as H2.
  destruct (shr_fexp prec emax _ e' loc_Exact) as [mrs'' e'']. cbn [fst] in H2.
  destruct (shr_m mrs'') as [|m|m]; [reflexivity | | lia].
  destruct (Z.leb _ _); reflexivity.
Qed.

Lemma binary_round_signed s m e : signed s (binary_round prec emax s m e).
Proof.
  unfold binary_round. destruct (shl_align _ _ _) as [mz ez].
  apply binary_round_aux_signed. lia.
Qed.

Lemma binary_normalize_number m e : number (binary_normalize prec emax m e false).
Proof.
  destruct m as [|p|p]; cbn.
  - discriminate.
  - apply (signed_number false), binary_round_signed.
  - apply (signed_number true), binary_round_signed.
Qed.

(** Squares are non-negative. *)
Lemma mul_self_nonneg (x : float) :
  number (Prim2SF x) -> nonneg (Prim2SF (x * x)).
Proof.
  intros H. rewrite mul_spec. unfold SF64mul.
  destruct (Prim2SF x) as [s|s| |s m e]; cbn.
  - destruct s; exact I.
  - destruct s; exact I.
  - apply H. reflexivity.
  - apply signed_false_nonneg.
    replace (xorb s s) with false by (destruct s; reflexivity).
    apply binary_round_aux_signed. lia.
Qed.

Lemma add_nonneg (x y : float) :
  nonneg (Prim2SF x) -> nonneg (Prim2SF y) -> nonneg (Prim2SF (x + y)).
Proof.
  rewrite add_spec. unfold SF64add.
  destruct (Prim2SF x) as [[|]|[|]| |[|] mx ex];
    destruct (Prim2SF y) as [[|]|[|]| |[|] my ey]; cbn; try tauto.
  intros _ _. apply signed_false_nonneg, binary_round_signed.
Qed.

Lemma sqrt_nonneg (x : float) :
  nonneg (Prim2SF x) -> nonneg (Prim2SF (sqrt x)).
Proof.
  rewrite sqrt_spec. unfold SF64sqrt.
  destruct (Prim2SF x) as [[|]|[|]| |[|] m e]; cbn [nonneg SFsqrt]; try tauto.
  intros _. unfold SFsqrt_core_binary.
  match goal with |- context [Z.sqrtrem ?n] =>
    pose proof (Z.sqrtrem_sqrt n) as Hq; destruct (Z.sqrtrem n) as [q r]
  end.
  cbn [fst] in Hq. subst q.
  apply signed_false_nonneg, binary_round_aux_signed, Z.sqrt_nonneg.
Qed.


Lemma is_finite_finite (x : float) : is_finite x = true -> finite (Prim2SF x).
Proof.
  unfold is_finite, is_nan, is_infinity.
  rewrite !FloatAxioms.eqb_spec, abs_spec.
  change (Prim2SF infinity) with (S754_infinity false).
  destruct (Prim2SF x) as [s|[|]| |s m e]; cbn; try discriminate; tauto.
Qed.

Lemma finite_number x : finite x -> number x.
Proof. destruct x; cbn; intros H E; try discriminate; tauto. Qed.

(** A finite value divided by a non-zero, non-negative number is a number. *)
Lemma div_number (x l : float) :
  finite (Prim2SF x) -> nonneg (Prim2SF l) -> PrimFloat.eqb l 0 = false ->
  number (Prim2SF (x / l)).
Proof.
  rewrite FloatAxioms.eqb_spec, div_spec. unfold SF64div.
  change (Prim2SF 0) with (S754_zero false).
  destruct (Prim2SF x) as [sx|sx| |sx mx ex];
    destruct (Prim2SF l) as [[|]|[|]| |[|] ml el]; cbn [finite nonneg SFdiv];
    try tauto; try discriminate; intros _ _ _.
  unfold SFdiv_core_binary.
  match goal with |- context [Z.div_eucl ?a ?b] =>
    pose proof (Z.div_pos a b) as Hq; unfold Z.div in Hq;
    assert (Ha : (0 <= a)%Z); [| destruct (Z.div_eucl a b) as [q r]]
  end.
  - destruct (_ - _ - _)%Z; try lia. apply Z.shiftl_nonneg. lia.
  - apply (signed_number (xorb sx false)), binary_round_aux_signed.
    apply Hq; [exact Ha | lia].
Qed.

Lemma sub_one_number (x : float) :
  number (Prim2SF x) -> number (Prim2SF (x - 1)).
Proof.
  rewrite sub_spec. unfold SF64sub.
  change (Prim2SF 1) with (S754_finite false 4503599627370496 (-52)).
  destruct (Prim2SF x) as [sx|sx| |sx mx ex]; cbn [SFsub]; intros H;
    try discriminate; try exact H.
  apply binary_normalize_number.
Qed.

Lemma abs_nonneg (x : float) : number (Prim2SF x) -> nonneg (Prim2SF (abs x)).
Proof.
  rewrite abs_spec. destruct (Prim2SF x); cbn; intros H; try exact I.
  apply H. reflexivity.
Qed.

(** Comparison of numbers is total and antisymmetric. *)
Lemma SFcompare_antisym (a b : spec_float) :
  SFcompare b a = option_map CompOpp (SFcompare a b).
Proof.
  destruct a as [[|]|[|]| |[|] m1 e1]; destruct b as [[|]|[|]| |[|] m2 e2];
    cbn; try reflexivity;
    rewrite (Z.compare_antisym e1 e2); destruct (e1 ?= e2)%Z; cbn;
    rewrite ?Pos.compare_cont_antisym; cbn [CompOpp];
    rewrite ?Pos.compare_cont_antisym; reflexivity.
Qed.

Lemma SFcompare_number (a b : spec_float) :
  number a -> number b -> SFcompare a b <> None.
Proof.
  intros Ha Hb. destruct a; try (exfalso; apply Ha; reflexivity);
    destruct b; try (exfalso; apply Hb; reflexivity); cbn; discriminate.
Qed.

(** On numbers, [b < a] is the negation of [a <= b]. *)
Lemma ltb_negb_leb (a b : float) :
  number (Prim2SF a) -> number (Prim2SF b) ->
  PrimFloat.ltb b a = negb (PrimFloat.leb a b).
Proof.
  intros Ha Hb. rewrite ltb_spec, leb_spec. unfold SFltb, SFleb.
  rewrite SFcompare_antisym.
  pose proof (SFcompare_number _ _ Ha Hb) as Hc.
  destruct (SFcompare (Prim2SF a) (Prim2SF b)) as [[| |]|];
    try reflexivity. congruence.
Qed.

(** A non-negative number is either equal to zero or above it. *)
Lemma nonneg_eqb_zero (x : float) :
  nonneg (Prim2SF x) -> PrimFloat.eqb x 0 = negb (PrimFloat.ltb 0 x).
Proof.
  rewrite FloatAxioms.eqb_spec, ltb_spec.
  change (Prim2SF 0) with (S754_zero false).
  destruct (Prim2SF x) as [[|]|[|]| |[|] m e]; cbn; tauto.
Qed.

End Binary64Facts.

(** ** Zero momenta *)

(** [x == 0] holds only of the two zeros. *)
Lemma eqb_zero_inv (x : double) :
  PrimFloat.eqb x 0 = true -> x = 0%float \/ x = (-0)%float.
Proof.
  intros H. rewrite FloatAxioms.eqb_spec in H.
  change (Prim2SF 0) with (S754_zero false) in H.
  rewrite <- (SF2Prim_Prim2SF x).
  destruct (Prim2SF x) as [[|]|[|]| |[|] m e]; try discriminate H;
    [right | left]; reflexivity.
Qed.

Lemma zero_momentum_length (px py pz : double) :
  PrimFloat.eqb px 0 = true -> PrimFloat.eqb py 0 = true ->
  PrimFloat.eqb pz 0 = true ->
  momentum_length px py pz = 0%float.
Proof.
  intros Hx Hy Hz.
  destruct (eqb_zero_inv px Hx), (eqb_zero_inv py Hy), (eqb_zero_inv pz Hz);
    subst; reflexivity.
Qed.

(** ** The two tests on finite momenta *)

Lemma momentum_length_nonneg (px py pz : double) :
  Binary64.number (Prim2SF px) -> Binary64.number (Prim2SF py) ->
  Binary64.number (Prim2SF pz) ->
  Binary64.nonneg (Prim2SF (momentum_length px py pz)).
Proof.
  intros Hx Hy Hz. unfold momentum_length.
  apply sqrt_nonneg, add_nonneg; [apply add_nonneg |];
    apply mul_self_nonneg; assumption.
Qed.

Lemma magsq_nonneg (dx dy dz : double) :
  Binary64.number (Prim2SF dx) -> Binary64.number (Prim2SF dy) ->
  Binary64.number (Prim2SF dz) ->
  Binary64.nonneg (Prim2SF (magsq (dx, dy, dz))).
Proof.
  intros Hx Hy Hz. cbn [magsq].
  apply add_nonneg; [apply add_nonneg |]; apply mul_self_nonneg; assumption.
Qed.

(** With finite momentum components and a length that is not zero, the
    squared magnitude of the direction is a number. *)
Lemma dirsq_nonneg (px py pz : double) :
  is_finite px = true -> is_finite py = true -> is_finite pz = true ->
  PrimFloat.eqb (momentum_length px py pz) 0 = false ->
  Binary64.nonneg (Prim2SF (dirsq_of px py pz)).
Proof.
  intros Hx Hy Hz H0.
  apply is_finite_finite in Hx, Hy, Hz.
  pose proof (momentum_length_nonneg px py pz
                (finite_number _ Hx) (finite_number _ Hy) (finite_number _ Hz))
    as HL.
  unfold dirsq_of, normalized.
  apply magsq_nonneg; apply div_number; assumption.
Qed.

(** On finite momenta the tests of the source are the ones the specification
    words: strictly positive length, squared magnitude within the tolerance
    of one. *)
Lemma accepted_when_finite (h : hit) :
  is_finite (hpx h) = true -> is_finite (hpy h) = true ->
  is_finite (hpz h) = true ->
  accepted h =
  positive_length (hpx h) (hpy h) (hpz h)
  && within_tolerance (dirsq_of (hpx h) (hpy h) (hpz h)).
Proof.
  intros Hx Hy Hz.
  pose proof (momentum_length_nonneg (hpx h) (hpy h) (hpz h)
                (finite_number _ (is_finite_finite _ Hx))
                (finite_number _ (is_finite_finite _ Hy))
                (finite_number _ (is_finite_finite _ Hz))) as HL.
  unfold accepted, skipped, zero_length, not_normalized, positive_length,
    within_tolerance.
  rewrite (nonneg_eqb_zero _ HL).
  destruct (PrimFloat.ltb 0 (momentum_length (hpx h) (hpy h) (hpz h))) eqn:E;
    [| reflexivity].
  cbn [negb orb andb].
  assert (H0 : PrimFloat.eqb (momentum_length (hpx h) (hpy h) (hpz h)) 0
               = false)
    by (rewrite (nonneg_eqb_zero _ HL), E; reflexivity).
  pose proof (dirsq_nonneg _ _ _ Hx Hy Hz H0) as Hd.
  rewrite (ltb_negb_leb _ tolerance).
  - apply negb_involutive.
  - apply nonneg_number, abs_nonneg, sub_one_number, nonneg_number, Hd.
  - discriminate.
Qed.

(** ** [main] *)

Lemma argc_3 (argv : list string) :
  List.length argv = 3 -> negb (Z.of_nat (List.length argv) =? 3)%Z = false.
Proof. intros ->. reflexivity. Qed.

Lemma argc_not_3 (argv : list string) :
  List.length argv <> 3 -> negb (Z.of_nat (List.length argv) =? 3)%Z = true.
Proof.
  intros H. apply negb_true_iff, Z.eqb_neq. lia.
Qed.

Lemma main_usage fs particle (argv : list string) :
  List.length argv <> 3 ->
  main fs particle argv = (1%Z, [printf (Usage (nth 0 argv ""))]).
Proof. intros H. unfold main. rewrite (argc_not_3 argv H). reflexivity. Qed.

Lemma main_unreadable fs particle (argv : list string) :
  List.length argv = 3 -> fs (nth 1 argv "") = None ->
  main fs particle argv =
  (1%Z, [fopen (nth 1 argv "") false;
         printf (ErrorOpeningInputFile (nth 1 argv ""))]).
Proof.
  intros H Hf. unfold main. rewrite (argc_3 argv H), Hf. reflexivity.
Qed.

Lemma main_converts fs particle (argv : list string) (f : FILE) :
  List.length argv = 3 -> fs (nth 1 argv "") = Some f ->
  main fs particle argv =
  (0%Z, prologue (nth 1 argv "") (nth 2 argv "")
        ++ read_loop f 0%Z particle ++ epilogue).
Proof.
  intros H Hf. unfold main. rewrite (argc_3 argv H), Hf. reflexivity.
Qed.

Lemma added_main fs particle (argv : list string) (f : FILE) :
  List.length argv = 3 -> fs (nth 1 argv "") = Some f ->
  added (snd (main fs particle argv)) =
  map record_of (filter accepted (parsed f)).
Proof.
  intros H Hf. rewrite (main_converts fs particle argv f H Hf).
  cbn [snd]. rewrite !added_app, added_read_loop.
  cbn [prologue epilogue added flat_map app]. apply app_nil_r.
Qed.

Lemma count_skip_body ind particle (h : hit) :
  count is_skip (fst (body_of ind particle h)) = if skipped h then 1 else 0.
Proof.
  rewrite body_of_eq. unfold skipped.
  destruct (zero_length h); [reflexivity |].
  destruct (not_normalized h); reflexivity.
Qed.

Lemma count_skip_read_loop (f : FILE) ind particle :
  count is_skip (read_loop f ind particle) =
  List.length (filter skipped (parsed f)).
Proof.
  destruct (FILE_split f) as (tail & E & Ht).
  rewrite E at 1. rewrite read_loop_encode by exact Ht.
  clear E. revert ind particle.
  induction (parsed f) as [|h hs IH]; intros ind particle; [reflexivity |].
  rewrite encode_cons. rewrite <- (app_nil_r (encode hs)).
  rewrite read_loop_fields, app_nil_r, count_app, IH, count_skip_body.
  cbn [filter]. destruct (skipped h); reflexivity.
Qed.

(** Only [printf] and [mcpl_add_particle] are called inside the loop. *)
Lemma flat_map_read_loop {A} (g : call -> list A) (f : FILE) ind particle :
  (forall m, g (printf m) = []) ->
  (forall p, g (mcpl_add_particle p) = []) ->
  flat_map g (read_loop f ind particle) = [].
Proof.
  intros Hm Hp.
  destruct (FILE_split f) as (tail & E & Ht).
  rewrite E. rewrite read_loop_encode by exact Ht.
  clear E. revert ind particle.
  induction (parsed f) as [|h hs IH]; intros ind particle; [reflexivity |].
  rewrite encode_cons. rewrite <- (app_nil_r (encode hs)).
  rewrite read_loop_fields, app_nil_r, flat_map_app, IH, app_nil_r.
  rewrite body_of_eq.
  destruct (zero_length h); [| destruct (not_normalized h)];
    cbn [fst flat_map]; rewrite ?Hm, ?Hp; reflexivity.
Qed.

(** * The claims *)

(** C1, at the input of two records [0 0 0 nan 0 0 1] and [0 0 0 inf 0 0 1].
    The claim has a record handed to the sink only if the momentum length is
    strictly positive and the squared magnitude of the direction is within
    the tolerance of one.  That fails of both records (every comparison with
    a NaN is false), yet both are handed to the sink: the source tests
    [length == 0] and [fabs(dirsq - 1.0) > 1.0e-5], and both are false of a
    NaN. *)
Theorem nan_momentum_is_appended :
  forall particle,
    let f := encode [mk_hit 0 0 0 nan 0 0 1; mk_hit 0 0 0 infinity 0 0 1] in
    added (snd (main (only_file "in.txt" f) particle sample_argv)) =
      [mk_particle (0, 0, 0)%float 2112%Z 1%float (nan, nan, nan) 1%Z;
       mk_particle (0, 0, 0)%float 2112%Z 1%float (nan, 0, 0)%float 1%Z] /\
    positive_length nan 0 0 = false /\
    within_tolerance (dirsq_of nan 0 0) = false /\
    within_tolerance (dirsq_of infinity 0 0) = false.
Proof.
  intros particle f. split; [| repeat split; reflexivity].
  rewrite (added_main (only_file "in.txt" f) particle sample_argv f eq_refl
             eq_refl).
  reflexivity.
Qed.

(** C2, at the input [0 0 0 inf 0 0 1].  The record passes both tests of the
    source and is handed to the sink, but its direction is [(nan, 0, 0)]:
    neither its magnitude nor its squared magnitude is within the tolerance
    of one. *)
Theorem infinite_momentum_direction_is_not_unit :
  forall particle,
    let f := fields (mk_hit 0 0 0 infinity 0 0 1) in
    exists p,
      added (snd (main (only_file "in.txt" f) particle sample_argv)) = [p] /\
      direction p = (nan, 0%float, 0%float) /\
      within_tolerance (magnitude (direction p)) = false /\
      within_tolerance (magsq (direction p)) = false.
Proof.
  intros particle f.
  exists (record_of (mk_hit 0 0 0 infinity 0 0 1)).
  rewrite (added_main (only_file "in.txt" f) particle sample_argv f eq_refl
             eq_refl).
  repeat split; reflexivity.
Qed.

(** C3.  For every input, the number of records handed to the sink is the
    number of complete seven-field records scanned minus the number of skip
    diagnostics (zero length or direction not normalized), and the records
    handed over are those of the hits that were not skipped, in input order. *)
Theorem appended_count_and_order :
  forall fs particle (argv : list string) (f : FILE),
    List.length argv = 3 -> fs (nth 1 argv "") = Some f ->
    let tr := snd (main fs particle argv) in
    List.length (added tr) = List.length (parsed f) - count is_skip tr /\
    added tr = map record_of (filter accepted (parsed f)).
Proof.
  intros fs particle argv f H Hf tr.
  assert (Ha : added tr = map record_of (filter accepted (parsed f)))
    by (apply added_main; assumption).
  split; [| exact Ha].
  rewrite Ha, length_map. unfold accepted. rewrite filter_split_length.
  f_equal. unfold tr. rewrite (main_converts fs particle argv f H Hf).
  cbn [snd]. rewrite !count_app, count_skip_read_loop.
  change (count is_skip (prologue (nth 1 argv "") (nth 2 argv ""))) with 0.
  change (count is_skip epilogue) with 0. lia.
Qed.

Lemma appended_count_and_order_witness :
  let f := encode [mk_hit 0 0 0 1 0 0 5; mk_hit 1 1 1 0 0 0 3;
                   mk_hit 2 2 2 0 3 4 7] ++ [Num 9; Junk] in
  let tr := snd (main (only_file "in.txt" f) blank_particle sample_argv) in
  List.length (added tr) = 3 - count is_skip tr /\
  added tr = [record_of (mk_hit 0 0 0 1 0 0 5);
              record_of (mk_hit 2 2 2 0 3 4 7)].
Proof.
  exact (appended_count_and_order (only_file "in.txt" _) blank_particle
           sample_argv _ eq_refl eq_refl).
Defined.

(** C4, as amended.  The source-name label of the output container is the
    output file name, the second command-line argument; it is set once, and
    one fixed comment is attached. *)
Theorem srcname_is_output_file :
  forall fs particle (argv : list string) (f : FILE),
    List.length argv = 3 -> fs (nth 1 argv "") = Some f ->
    let tr := snd (main fs particle argv) in
    srcnames tr = [nth 2 argv ""] /\ comments tr = [header_comment].
Proof.
  intros fs particle argv f H Hf tr. unfold tr.
  rewrite (main_converts fs particle argv f H Hf). cbn [snd].
  unfold srcnames, comments. rewrite !flat_map_app.
  rewrite !flat_map_read_loop by reflexivity. split; reflexivity.
Qed.

Lemma srcname_is_output_file_witness :
  let tr := snd (main (only_file "in.txt" (encode [mk_hit 0 0 0 1 0 0 5]))
                      blank_particle sample_argv) in
  srcnames tr = ["out.mcpl"] /\ comments tr = [header_comment].
Proof.
  exact (srcname_is_output_file (only_file "in.txt" _) blank_particle
           sample_argv _ eq_refl eq_refl).
Defined.

(** C4, as stated, fails: on [Text2MCPL in.txt out.mcpl] the label is the
    output file name and not the input file name. *)
Lemma srcname_is_not_input_file :
  let tr := snd (main (only_file "in.txt" []) blank_particle sample_argv) in
  srcnames tr = ["out.mcpl"] /\ srcnames tr <> [nth 1 sample_argv ""].
Proof. split; [reflexivity | discriminate]. Qed.

(** C5.  A record whose momentum components all compare equal to zero is
    never handed to the sink, whatever its position and energy: the body only
    prints the zero-length diagnostic, leaves [*particle] alone, and the loop
    goes on with the next record. *)
Theorem zero_momentum_never_appended :
  forall ind particle (h : hit) (rest : FILE),
    PrimFloat.eqb (hpx h) 0 = true ->
    PrimFloat.eqb (hpy h) 0 = true ->
    PrimFloat.eqb (hpz h) 0 = true ->
    body_of ind particle h = ([printf (SkippingLengthIsZero ind)], particle) /\
    added (fst (body_of ind particle h)) = [] /\
    read_loop (fields h ++ rest) ind particle =
    printf (SkippingLengthIsZero ind) :: read_loop rest (int_incr ind) particle.
Proof.
  intros ind particle h rest Hx Hy Hz.
  assert (B : body_of ind particle h =
              ([printf (SkippingLengthIsZero ind)], particle)).
  { rewrite body_of_eq. unfold zero_length.
    rewrite (zero_momentum_length _ _ _ Hx Hy Hz). reflexivity. }
  rewrite read_loop_fields, B. repeat split; reflexivity.
Qed.

Lemma zero_momentum_never_appended_witness :
  let h := mk_hit 1 1 1 0 (-0) 0 3 in
  body_of 4 blank_particle h =
    ([printf (SkippingLengthIsZero 4)], blank_particle) /\
  added (fst (body_of 4 blank_particle h)) = [] /\
  read_loop (fields h ++ fields (mk_hit 0 0 0 1 0 0 5)) 4 blank_particle =
  printf (SkippingLengthIsZero 4)
    :: read_loop (fields (mk_hit 0 0 0 1 0 0 5)) (int_incr 4) blank_particle.
Proof.
  exact (zero_momentum_never_appended 4 blank_particle (mk_hit 1 1 1 0 (-0) 0 3)
           (fields (mk_hit 0 0 0 1 0 0 5)) eq_refl eq_refl eq_refl).
Defined.

(** C6.  Whatever the input file holds, the program exits with code 0, and
    the last two calls, made exactly once each, close and compress the sink
    and close the input handle.  The input is some complete records followed
    by a tail on which the scan assigns fewer than seven fields (end of input
    or malformed content, and whatever comes after it); however it is split
    that way, the loop does exactly what it does on the complete records
    alone, so all their accepted records have been handed to the sink. *)
Theorem read_stops_at_first_short_scan :
  forall fs particle (argv : list string) (f : FILE),
    List.length argv = 3 ->
    fs (nth 1 argv "") = Some f ->
    let tr := snd (main fs particle argv) in
    fst (main fs particle argv) = 0%Z /\
    count is_closeandgzip tr = 1 /\
    count is_fclose tr = 1 /\
    (exists tr', tr = tr' ++ [mcpl_closeandgzip_outfile; fclose]) /\
    (exists hs tail, f = encode hs ++ tail /\ fscanf tail <> 7%Z) /\
    (forall hs tail, f = encode hs ++ tail -> fscanf tail <> 7%Z ->
       tr = prologue (nth 1 argv "") (nth 2 argv "")
            ++ read_loop (encode hs) 0%Z particle
            ++ [mcpl_closeandgzip_outfile; fclose] /\
       added tr = map record_of (filter accepted hs)).
Proof.
  intros fs particle argv f H Hf tr. unfold tr.
  rewrite (main_converts fs particle argv f H Hf). cbn [fst snd].
  split; [reflexivity |]. split; [| split; [| split; [| split]]].
  - rewrite !count_app, count_read_loop by reflexivity. reflexivity.
  - rewrite !count_app, count_read_loop by reflexivity. reflexivity.
  - exists (prologue (nth 1 argv "") (nth 2 argv "") ++ read_loop f 0%Z particle).
    rewrite <- app_assoc. reflexivity.
  - destruct (FILE_split f) as (tail & E & Ht). eauto.
  - intros hs tail -> Ht. rewrite read_loop_encode by exact Ht.
    split; [reflexivity |].
    rewrite !added_app, added_read_loop_encode.
    cbn [prologue epilogue added flat_map app]. apply app_nil_r.
Qed.

Lemma read_stops_at_first_short_scan_witness :
  let hs := [mk_hit 0 0 0 1 0 0 5; mk_hit 2 2 2 0 3 4 7] in
  let tail := Num 1 :: Num 2 :: Junk :: fields (mk_hit 0 0 0 0 0 1 6) in
  let run := main (only_file "in.txt" (encode hs ++ tail)) blank_particle
                  sample_argv in
  fst run = 0%Z /\
  count is_closeandgzip (snd run) = 1 /\
  count is_fclose (snd run) = 1 /\
  snd run = prologue "in.txt" "out.mcpl"
            ++ read_loop (encode hs) 0%Z blank_particle
            ++ [mcpl_closeandgzip_outfile; fclose] /\
  added (snd run) = [record_of (mk_hit 0 0 0 1 0 0 5);
                     record_of (mk_hit 2 2 2 0 3 4 7)].
Proof.
  intros hs tail run.
  destruct (read_stops_at_first_short_scan
              (only_file "in.txt" (encode hs ++ tail)) blank_particle
              sample_argv (encode hs ++ tail) eq_refl eq_refl)
    as (H0 & H1 & H2 & _ & _ & H3).
  destruct (H3 hs tail eq_refl) as [H4 H5]; [vm_compute; discriminate |].
  repeat split; assumption.
Defined.

(** C7.  With an argument count other than three the program prints the
    usage message and exits with code 1; with three arguments and an input
    file that cannot be opened it prints the error message and exits with
    code 1; otherwise it exits with code 0, whatever the input holds, so also
    when no record is handed to the sink. *)
Theorem exit_codes :
  forall fs particle (argv : list string),
    (List.length argv <> 3 ->
     fst (main fs particle argv) = 1%Z /\
     printed (snd (main fs particle argv)) = [Usage (nth 0 argv "")]) /\
    (List.length argv = 3 -> fs (nth 1 argv "") = None ->
     fst (main fs particle argv) = 1%Z /\
     printed (snd (main fs particle argv)) =
       [ErrorOpeningInputFile (nth 1 argv "")]) /\
    (List.length argv = 3 -> fs (nth 1 argv "") <> None ->
     fst (main fs particle argv) = 0%Z).
Proof.
  intros fs particle argv. split; [| split].
  - intros H. rewrite (main_usage fs particle argv H). split; reflexivity.
  - intros H Hf. rewrite (main_unreadable fs particle argv H Hf).
    split; reflexivity.
  - intros H Hf. destruct (fs (nth 1 argv "")) as [f|] eqn:E; [| congruence].
    rewrite (main_converts fs particle argv f H E). reflexivity.
Qed.

Lemma exit_codes_witness :
  (fst (main (only_file "in.txt" []) blank_particle ["Text2MCPL"; "in.txt"])
   = 1%Z /\
   printed (snd (main (only_file "in.txt" []) blank_particle
                      ["Text2MCPL"; "in.txt"])) = [Usage "Text2MCPL"]) /\
  (fst (main (only_file "other.txt" []) blank_particle sample_argv) = 1%Z /\
   printed (snd (main (only_file "other.txt" []) blank_particle sample_argv))
   = [ErrorOpeningInputFile "in.txt"]) /\
  fst (main (only_file "in.txt" []) blank_particle sample_argv) = 0%Z /\
  added (snd (main (only_file "in.txt" []) blank_particle sample_argv)) = [].
Proof.
  split; [| split; [| split]].
  - apply (exit_codes (only_file "in.txt" []) blank_particle
             ["Text2MCPL"; "in.txt"]). simpl. lia.
  - apply (exit_codes (only_file "other.txt" []) blank_particle sample_argv);
      reflexivity.
  - apply (exit_codes (only_file "in.txt" []) blank_particle sample_argv);
      [reflexivity | discriminate].
  - reflexivity.
Defined.

(** C8.  The input file is opened first.  When it cannot be opened, the run
    consists of the failed [fopen] and the error message: the output file is
    never created.  When it can, the successful [fopen] is the first call and
    the creation of the output file the second, and nothing else creates a
    file. *)
Theorem no_output_without_input :
  forall fs particle (argv : list string),
    List.length argv = 3 ->
    let tr := snd (main fs particle argv) in
    (fs (nth 1 argv "") = None ->
     tr = [fopen (nth 1 argv "") false;
           printf (ErrorOpeningInputFile (nth 1 argv ""))] /\
     created tr = []) /\
    (fs (nth 1 argv "") <> None ->
     (exists tr', tr = fopen (nth 1 argv "") true
                       :: mcpl_create_outfile (nth 2 argv "") :: tr') /\
     created tr = [nth 2 argv ""]).
Proof.
  intros fs particle argv H tr. unfold tr. split; intros Hf.
  - rewrite (main_unreadable fs particle argv H Hf). split; reflexivity.
  - destruct (fs (nth 1 argv "")) as [f|] eqn:E; [| congruence].
    rewrite (main_converts fs particle argv f H E). cbn [snd]. split.
    + eexists. reflexivity.
    + unfold created. rewrite !flat_map_app.
      rewrite flat_map_read_loop by reflexivity. reflexivity.
Qed.

Lemma no_output_without_input_witness :
  let tr := snd (main (only_file "other.txt" []) blank_particle sample_argv) in
  tr = [fopen "in.txt" false; printf (ErrorOpeningInputFile "in.txt")] /\
  created tr = [].
Proof.
  apply (no_output_without_input (only_file "other.txt" []) blank_particle
           sample_argv eq_refl).
  reflexivity.
Defined.

(** C9.  Position and kinetic energy are not examined.  In every run that
    reads its input, the records handed to the sink are, in input order,
    those of the scanned records whose momentum passes the two tests, the
    tests reading the momentum only; each carries the position and the
    kinetic energy of its scanned record unchanged, whatever these are
    (negative, infinite or NaN included). *)
Theorem position_and_energy_pass_through :
  forall fs particle (argv : list string) (f : FILE),
    List.length argv = 3 -> fs (nth 1 argv "") = Some f ->
    let tr := snd (main fs particle argv) in
    let passing :=
      filter (fun h => momentum_passes (hpx h) (hpy h) (hpz h)) (parsed f) in
    map position (added tr) = map (fun h => (hx h, hy h, hz h)) passing /\
    map ekin (added tr) = map hekin passing.
Proof.
  intros fs particle argv f H Hf tr passing. unfold tr, passing.
  rewrite (added_main fs particle argv f H Hf).
  assert (E : filter accepted (parsed f) =
              filter (fun h => momentum_passes (hpx h) (hpy h) (hpz h))
                     (parsed f)).
  { apply filter_ext. intros h.
    unfold accepted, skipped, zero_length, not_normalized, momentum_passes.
    apply negb_orb. }
  rewrite E, !map_map. split; reflexivity.
Qed.

Lemma position_and_energy_pass_through_witness :
  let f := encode [mk_hit (-0x1p1023) infinity nan 3 4 12 (-5);
                   mk_hit 7 8 9 0 0 0 nan;
                   mk_hit 0 (-0) 0x1p-1074 0 0 (-2) (-0x1.fp1023)] in
  let tr := snd (main (only_file "in.txt" f) blank_particle sample_argv) in
  map position (added tr) =
    [((-0x1p1023)%float, infinity, nan);
     (0%float, (-0)%float, 0x1p-1074%float)] /\
  map ekin (added tr) = [(-5)%float; (-0x1.fp1023)%float].
Proof.
  intros f tr.
  exact (position_and_energy_pass_through (only_file "in.txt" f)
           blank_particle sample_argv f eq_refl eq_refl).
Defined.

(** * Further properties of the loop body *)

(** X1.  Exact acceptance: a scanned record leads to exactly one
    [mcpl_add_particle] call when [length == 0] and
    [fabs(dirsq - 1.0) > 1.0e-5] are both false, and to none otherwise. *)
Theorem appended_iff_tests_fail :
  forall ind particle (hit_x hit_y hit_z px py pz kinetic_energy : double),
    List.length (added (fst (loop_body ind particle hit_x hit_y hit_z px py pz
                                       kinetic_energy))) =
    if negb (PrimFloat.eqb (momentum_length px py pz) 0)
       && negb (PrimFloat.ltb tolerance (abs (dirsq_of px py pz - 1)))
    then 1 else 0.
Proof.
  intros ind particle x y z px py pz e.
  change (loop_body ind particle x y z px py pz e)
    with (body_of ind particle (mk_hit x y z px py pz e)).
  rewrite added_body. unfold accepted, skipped, zero_length, not_normalized.
  cbn [hpx hpy hpz].
  destruct (PrimFloat.eqb _ 0); [reflexivity |].
  destruct (PrimFloat.ltb _ _); reflexivity.
Qed.

(** X2.  When the three momentum components are finite (neither NaN nor
    infinite), a record is handed to the sink if and only if the momentum
    length is strictly greater than zero and the squared magnitude of the
    normalized direction is within the tolerance of one. *)
Theorem finite_momentum_appended_iff :
  forall ind particle (h : hit),
    is_finite (hpx h) = true -> is_finite (hpy h) = true ->
    is_finite (hpz h) = true ->
    added (fst (body_of ind particle h)) =
    if positive_length (hpx h) (hpy h) (hpz h)
       && within_tolerance (dirsq_of (hpx h) (hpy h) (hpz h))
    then [record_of h] else [].
Proof.
  intros ind particle h Hx Hy Hz.
  rewrite added_body, (accepted_when_finite h Hx Hy Hz). reflexivity.
Qed.

Lemma finite_momentum_appended_iff_witness :
  added (fst (body_of 0 blank_particle (mk_hit 1 2 3 3 4 12 7))) =
    [record_of (mk_hit 1 2 3 3 4 12 7)] /\
  added (fst (body_of 0 blank_particle (mk_hit 1 2 3 0x1p600 0 0 7))) = [].
Proof.
  split.
  - exact (finite_momentum_appended_iff 0 blank_particle
             (mk_hit 1 2 3 3 4 12 7) eq_refl eq_refl eq_refl).
  - exact (finite_momentum_appended_iff 0 blank_particle
             (mk_hit 1 2 3 0x1p600 0 0 7) eq_refl eq_refl eq_refl).
Defined.

(** X3.  Every record handed to the sink carries the scanned position and
    kinetic energy, the momentum divided componentwise by its length, the
    code 2112 and the weight 1; and the test [fabs(dirsq - 1.0) > 1.0e-5] is
    false of its direction. *)
Theorem appended_record_fields :
  forall ind particle (hit_x hit_y hit_z px py pz kinetic_energy : double) p,
    In p (added (fst (loop_body ind particle hit_x hit_y hit_z px py pz
                                kinetic_energy))) ->
    position p = (hit_x, hit_y, hit_z) /\
    direction p = ((px / momentum_length px py pz)%float,
                   (py / momentum_length px py pz)%float,
                   (pz / momentum_length px py pz)%float) /\
    ekin p = kinetic_energy /\
    pdgcode p = 2112%Z /\
    weight p = 1%Z /\
    PrimFloat.ltb tolerance (abs (magsq (direction p) - 1)) = false.
Proof.
  intros ind particle x y z px py pz e p.
  change (loop_body ind particle x y z px py pz e)
    with (body_of ind particle (mk_hit x y z px py pz e)).
  rewrite added_body. unfold accepted, skipped, zero_length, not_normalized.
  cbn [hpx hpy hpz].
  destruct (PrimFloat.eqb _ 0); [intros [] |].
  destruct (PrimFloat.ltb _ _) eqn:E; [intros [] |].
  intros [<- | []]. repeat split; try reflexivity. exact E.
Qed.

Lemma appended_record_fields_witness :
  let p := record_of (mk_hit 1 2 3 3 4 12 7) in
  position p = (1, 2, 3)%float /\
  direction p = ((3 / momentum_length 3 4 12)%float,
                 (4 / momentum_length 3 4 12)%float,
                 (12 / momentum_length 3 4 12)%float) /\
  ekin p = 7%float /\
  pdgcode p = 2112%Z /\
  weight p = 1%Z /\
  PrimFloat.ltb tolerance (abs (magsq (direction p) - 1)) = false.
Proof.
  exact (appended_record_fields 0 blank_particle 1 2 3 3 4 12 7
           (record_of (mk_hit 1 2 3 3 4 12 7)) (or_introl eq_refl)).
Defined.

(** X4.  With finite momentum components, the direction of every record
    handed to the sink has a squared magnitude within the tolerance of
    one. *)
Theorem finite_momentum_direction_is_unit :
  forall ind particle (h : hit) p,
    is_finite (hpx h) = true -> is_finite (hpy h) = true ->
    is_finite (hpz h) = true ->
    In p (added (fst (body_of ind particle h))) ->
    within_tolerance (magsq (direction p)) = true.
Proof.
  intros ind particle h p Hx Hy Hz.
  rewrite added_body, (accepted_when_finite h Hx Hy Hz).
  destruct (positive_length _ _ _); [| intros []].
  destruct (within_tolerance _) eqn:E; [| intros []].
  intros [<- | []]. exact E.
Qed.

Lemma finite_momentum_direction_is_unit_witness :
  within_tolerance (magsq (direction (record_of (mk_hit 1 2 3 3 4 12 7))))
  = true.
Proof.
  exact (finite_momentum_direction_is_unit 0 blank_particle
           (mk_hit 1 2 3 3 4 12 7) (record_of (mk_hit 1 2 3 3 4 12 7))
           eq_refl eq_refl eq_refl (or_introl eq_refl)).
Defined.

(** * Extreme and non-finite momenta *)

Section ExtremeFacts.
Import Binary64.


(** A value that is not finite is a NaN or an infinity. *)
Lemma not_finite_inv (x : float) :
  is_finite x = false ->
  Prim2SF x = S754_nan \/ exists s, Prim2SF x = S754_infinity s.
Proof.
  unfold is_finite, is_nan, is_infinity.
  rewrite !FloatAxioms.eqb_spec, abs_spec.
  change (Prim2SF infinity) with (S754_infinity false).
  destruct (Prim2SF x) as [[|]|s| |[|] m e]; eauto; unfold SFeqb; cbn;
    rewrite ?Z.compare_refl, ?Pos.compare_cont_refl; discriminate.
Qed.

Lemma mul_self_shape (x : float) : nan_or_nonneg (Prim2SF (x * x)).
Proof.
  destruct (Prim2SF x) as [s|s| |s m e] eqn:E.
  1,2,4: right; apply mul_self_nonneg; rewrite E; discriminate.
  left. rewrite mul_spec, E. reflexivity.
Qed.

Lemma add_shape (x y : float) :
  nan_or_nonneg (Prim2SF x) -> nan_or_nonneg (Prim2SF y) ->
  nan_or_nonneg (Prim2SF (x + y)).
Proof.
  intros [Hx | Hx] [Hy | Hy].
  4: right; apply add_nonneg; assumption.
  all: left; rewrite add_spec; unfold SF64add;
    rewrite ?Hx, ?Hy; try reflexivity.
  destruct (Prim2SF x); reflexivity.
Qed.

Lemma sqrt_shape (x : float) :
  nan_or_nonneg (Prim2SF x) -> nan_or_nonneg (Prim2SF (sqrt x)).
Proof.
  intros [H | H]; [left | right; apply sqrt_nonneg, H].
  rewrite sqrt_spec, H. reflexivity.
Qed.

Lemma shape_not_negative (x : float) :
  nan_or_nonneg (Prim2SF x) -> PrimFloat.ltb x 0 = false.
Proof.
  rewrite ltb_spec. change (Prim2SF 0) with (S754_zero false).
  intros [-> | H]; [reflexivity |].
  destruct (Prim2SF x) as [[|]|[|]| |[|] m e]; cbn in H; try tauto;
    reflexivity.
Qed.

(** NaN propagates through every operation of the loop body. *)
Lemma mul_self_nan (x : float) :
  Prim2SF x = S754_nan -> Prim2SF (x * x) = S754_nan.
Proof. intros H. rewrite mul_spec, H. reflexivity. Qed.

Lemma add_nan_l (x y : float) :
  Prim2SF x = S754_nan -> Prim2SF (x + y) = S754_nan.
Proof. intros H. rewrite add_spec, H. reflexivity. Qed.

Lemma add_nan_r (x y : float) :
  Prim2SF y = S754_nan -> Prim2SF (x + y) = S754_nan.
Proof.
  intros H. rewrite add_spec, H. destruct (Prim2SF x); reflexivity.
Qed.

Lemma sqrt_nan (x : float) :
  Prim2SF x = S754_nan -> Prim2SF (sqrt x) = S754_nan.
Proof. intros H. rewrite sqrt_spec, H. reflexivity. Qed.

Lemma div_nan_r (x l : float) :
  Prim2SF l = S754_nan -> Prim2SF (x / l) = S754_nan.
Proof.
  intros H. rewrite div_spec, H. destruct (Prim2SF x); reflexivity.
Qed.

Lemma div_inf_inf (x l : float) s s' :
  Prim2SF x = S754_infinity s -> Prim2SF l = S754_infinity s' ->
  Prim2SF (x / l) = S754_nan.
Proof. intros Hx Hl. rewrite div_spec, Hx, Hl. reflexivity. Qed.

Lemma magsq_nan (dx dy dz : float) :
  Prim2SF dx = S754_nan \/ Prim2SF dy = S754_nan \/ Prim2SF dz = S754_nan ->
  Prim2SF (magsq (dx, dy, dz)) = S754_nan.
Proof.
  cbn [magsq]. intros [H | [H | H]].
  - apply add_nan_l, add_nan_l, mul_self_nan, H.
  - apply add_nan_l, add_nan_r, mul_self_nan, H.
  - apply add_nan_r, mul_self_nan, H.
Qed.

(** Neither test of the loop body fires on a NaN. *)
Lemma nan_passes_tests (d : float) :
  Prim2SF d = S754_nan ->
  PrimFloat.ltb tolerance (abs (d - 1)) = false.
Proof.
  intros H. rewrite ltb_spec, abs_spec, sub_spec, H. reflexivity.
Qed.

Lemma nan_dec (x : float) : Prim2SF x = S754_nan \/ number (Prim2SF x).
Proof. destruct (Prim2SF x); (left; reflexivity) || (right; discriminate). Qed.

Lemma mul_self_inf (x : float) s :
  Prim2SF x = S754_infinity s -> Prim2SF (x * x) = S754_infinity false.
Proof. intros H. rewrite mul_spec, H. destruct s; reflexivity. Qed.

Lemma add_inf_l (x y : float) :
  Prim2SF x = S754_infinity false -> nonneg (Prim2SF y) ->
  Prim2SF (x + y) = S754_infinity false.
Proof.
  intros H. rewrite add_spec, H.
  destruct (Prim2SF y) as [[|]|[|]| |[|] m e]; cbn; tauto.
Qed.

Lemma add_inf_r (x y : float) :
  nonneg (Prim2SF x) -> Prim2SF y = S754_infinity false ->
  Prim2SF (x + y) = S754_infinity false.
Proof.
  intros Hx H. rewrite add_spec, H. revert Hx.
  destruct (Prim2SF x) as [[|]|[|]| |[|] m e]; cbn; tauto.
Qed.

(** The length of a momentum with a NaN component is a NaN. *)
Lemma momentum_length_nan (px py pz : float) :
  Prim2SF px = S754_nan \/ Prim2SF py = S754_nan \/ Prim2SF pz = S754_nan ->
  Prim2SF (momentum_length px py pz) = S754_nan.
Proof.
  intros H. unfold momentum_length. apply sqrt_nan.
  exact (magsq_nan px py pz H).
Qed.

(** The length of a momentum of numbers with an infinite component is
    [+inf]. *)
Lemma momentum_length_inf (px py pz : float) :
  number (Prim2SF px) -> number (Prim2SF py) -> number (Prim2SF pz) ->
  (exists s, Prim2SF px = S754_infinity s) \/
  (exists s, Prim2SF py = S754_infinity s) \/
  (exists s, Prim2SF pz = S754_infinity s) ->
  Prim2SF (momentum_length px py pz) = S754_infinity false.
Proof.
  intros Nx Ny Nz H. unfold momentum_length.
  pose proof (mul_self_nonneg px Nx) as Sx.
  pose proof (mul_self_nonneg py Ny) as Sy.
  pose proof (mul_self_nonneg pz Nz) as Sz.
  rewrite sqrt_spec.
  replace (Prim2SF (px * px + py * py + pz * pz))
    with (S754_infinity false); [reflexivity |].
  symmetry. destruct H as [[s H] | [[s H] | [s H]]].
  - apply add_inf_l; [| exact Sz].
    apply add_inf_l; [| exact Sy]. exact (mul_self_inf px s H).
  - apply add_inf_l; [| exact Sz].
    apply add_inf_r; [exact Sx |]. exact (mul_self_inf py s H).
  - apply add_inf_r; [apply add_nonneg; assumption |].
    exact (mul_self_inf pz s H).
Qed.

(** With a momentum component that is not finite, the length is not zero and
    the squared magnitude of the direction is a NaN. *)
Lemma nonfinite_momentum (px py pz : float) :
  is_finite px && is_finite py && is_finite pz = false ->
  PrimFloat.eqb (momentum_length px py pz) 0 = false /\
  Prim2SF (dirsq_of px py pz) = S754_nan.
Proof.
  intros H.
  destruct (nan_dec px) as [Nx | Nx];
    [| destruct (nan_dec py) as [Ny | Ny];
       [| destruct (nan_dec pz) as [Nz | Nz]]].
  1-3: assert (L : Prim2SF (momentum_length px py pz) = S754_nan)
         by (apply momentum_length_nan; tauto);
       split; [rewrite FloatAxioms.eqb_spec, L; reflexivity |];
       unfold dirsq_of, normalized; apply magsq_nan; left;
       apply div_nan_r, L.
  assert (I : (exists s, Prim2SF px = S754_infinity s) \/
              (exists s, Prim2SF py = S754_infinity s) \/
              (exists s, Prim2SF pz = S754_infinity s)).
  { apply andb_false_iff in H. destruct H as [H | H];
      [apply andb_false_iff in H; destruct H as [H | H] |];
      apply not_finite_inv in H; unfold number in *; tauto. }
  pose proof (momentum_length_inf px py pz Nx Ny Nz I) as L.
  split; [rewrite FloatAxioms.eqb_spec, L; reflexivity |].
  unfold dirsq_of, normalized. apply magsq_nan.
  destruct I as [[s E] | [[s E] | [s E]]];
    [left | right; left | right; right];
    exact (div_inf_inf _ _ s false E L).
Qed.

End ExtremeFacts.

(** X5.  A record whose momentum has a component that is not finite (a NaN
    or an infinity) is never skipped: it is handed to the sink, and the
    squared magnitude of the direction it carries is a NaN. *)
Theorem nonfinite_momentum_always_appended :
  forall ind particle (h : hit),
    is_finite (hpx h) && is_finite (hpy h) && is_finite (hpz h) = false ->
    added (fst (body_of ind particle h)) = [record_of h] /\
    is_nan (magsq (direction (record_of h))) = true.
Proof.
  intros ind particle h H.
  destruct (nonfinite_momentum _ _ _ H) as [H0 Hd].
  split.
  - rewrite added_body. unfold accepted, skipped, zero_length, not_normalized.
    rewrite H0, (nan_passes_tests _ Hd). reflexivity.
  - change (magsq (direction (record_of h)))
      with (dirsq_of (hpx h) (hpy h) (hpz h)).
    unfold is_nan. rewrite FloatAxioms.eqb_spec, Hd. reflexivity.
Qed.

Lemma nonfinite_momentum_always_appended_witness :
  let h := mk_hit 1 2 3 4 neg_infinity 5 6 in
  added (fst (body_of 0 blank_particle h)) = [record_of h] /\
  is_nan (magsq (direction (record_of h))) = true.
Proof.
  exact (nonfinite_momentum_always_appended 0 blank_particle
           (mk_hit 1 2 3 4 neg_infinity 5 6) eq_refl).
Defined.

Section UnderflowOverflowFacts.
Import Binary64.

(** A square that compares equal to zero is [+0]. *)
Lemma mul_self_zero (x : float) :
  PrimFloat.eqb (x * x) 0 = true -> (x * x)%float = 0%float.
Proof.
  intros H. destruct (eqb_zero_inv _ H) as [E | E]; [exact E |].
  exfalso. pose proof (mul_self_shape x) as S. rewrite E in S.
  destruct S as [S | S]; [discriminate S | exact S].
Qed.



Lemma SFopp_binary_round_aux s m e l :
  SFopp (binary_round_aux prec emax s m e l)
  = binary_round_aux prec emax (negb s) m e l.
Proof.
  unfold binary_round_aux.
  destruct (shr_fexp prec emax m e l) as [mrs' e'].
  destruct (shr_fexp prec emax _ e' loc_Exact) as [mrs'' e''].
  destruct (shr_m mrs''); [reflexivity | | reflexivity].
  destruct (Z.leb _ _); reflexivity.
Qed.

Lemma mul_opp_opp (x : float) : ((- x) * (- x))%float = (x * x)%float.
Proof.
  apply Prim2SF_inj. rewrite !mul_spec, opp_spec.
  destruct (Prim2SF x) as [[|]|[|]| |[|] m e]; reflexivity.
Qed.

Lemma div_opp_l (x l : float) : ((- x) / l)%float = (- (x / l))%float.
Proof.
  apply Prim2SF_inj. rewrite opp_spec, !div_spec, opp_spec. unfold SF64div.
  destruct (Prim2SF x) as [[|]|[|]| |[|] mx ex];
    destruct (Prim2SF l) as [[|]|[|]| |[|] ml el];
    cbn [SFopp SFdiv negb xorb]; try reflexivity;
    destruct (SFdiv_core_binary _ _ _ _ _ _) as [[mz ez] lz];
    rewrite SFopp_binary_round_aux; reflexivity.
Qed.

Lemma momentum_length_opp (px py pz : double) :
  momentum_length (- px) (- py) (- pz) = momentum_length px py pz.
Proof. unfold momentum_length. rewrite !mul_opp_opp. reflexivity. Qed.

Lemma normalized_opp (px py pz : double) :
  normalized (- px) (- py) (- pz) =
  let '(dx, dy, dz) := normalized px py pz in
  ((- dx)%float, (- dy)%float, (- dz)%float).
Proof.
  unfold normalized. rewrite momentum_length_opp, !div_opp_l. reflexivity.
Qed.

Lemma dirsq_of_opp (px py pz : double) :
  dirsq_of (- px) (- py) (- pz) = dirsq_of px py pz.
Proof.
  unfold dirsq_of. rewrite normalized_opp. unfold normalized.
  cbn [magsq]. rewrite !mul_opp_opp. reflexivity.
Qed.

Lemma magsq_shape (dx dy dz : float) :
  nan_or_nonneg (Prim2SF (magsq (dx, dy, dz))).
Proof.
  cbn [magsq]. apply add_shape; [apply add_shape |]; apply mul_self_shape.
Qed.

End UnderflowOverflowFacts.

(** X6.  A record whose three squared momentum components each compare equal
    to zero, as when non-zero components are so small that their squares
    underflow, is skipped as having zero length. *)
Theorem underflowing_momentum_is_zero_length :
  forall ind particle (h : hit),
    PrimFloat.eqb (hpx h * hpx h) 0 = true ->
    PrimFloat.eqb (hpy h * hpy h) 0 = true ->
    PrimFloat.eqb (hpz h * hpz h) 0 = true ->
    body_of ind particle h = ([printf (SkippingLengthIsZero ind)], particle).
Proof.
  intros ind particle h Hx Hy Hz.
  rewrite body_of_eq. unfold zero_length, momentum_length.
  rewrite (mul_self_zero _ Hx), (mul_self_zero _ Hy), (mul_self_zero _ Hz).
  reflexivity.
Qed.

Lemma underflowing_momentum_is_zero_length_witness :
  body_of 3 blank_particle (mk_hit 1 2 3 0x1p-600 (-0x1p-550) 0x1p-1074 4)
  = ([printf (SkippingLengthIsZero 3)], blank_particle).
Proof.
  exact (underflowing_momentum_is_zero_length 3 blank_particle
           (mk_hit 1 2 3 0x1p-600 (-0x1p-550) 0x1p-1074 4)
           eq_refl eq_refl eq_refl).
Defined.



(** X8.  Reversing the momentum of a record changes nothing but the sign of
    the direction: the record is handed to the sink exactly when the
    original is, with each direction component negated. *)
Theorem reversed_momentum_reverses_direction :
  forall ind particle (hit_x hit_y hit_z px py pz kinetic_energy : double),
    added (fst (loop_body ind particle hit_x hit_y hit_z
                          (- px) (- py) (- pz) kinetic_energy)) =
    map reverse_direction
        (added (fst (loop_body ind particle hit_x hit_y hit_z px py pz
                               kinetic_energy))).
Proof.
  intros ind particle x y z px py pz e.
  change (loop_body ind particle x y z (- px) (- py) (- pz) e)
    with (body_of ind particle (mk_hit x y z (- px) (- py) (- pz) e)).
  change (loop_body ind particle x y z px py pz e)
    with (body_of ind particle (mk_hit x y z px py pz e)).
  rewrite !added_body.
  unfold accepted, skipped, zero_length, not_normalized. cbn [hpx hpy hpz].
  rewrite momentum_length_opp, dirsq_of_opp.
  destruct (negb _); [| reflexivity].
  cbn [map]. unfold record_of, reverse_direction. cbn [hx hy hz hpx hpy hpz hekin direction].
  rewrite normalized_opp. destruct (normalized px py pz) as [[dx dy] dz].
  reflexivity.
Qed.

(** X9.  The computed momentum length and the squared magnitude of the
    direction are never below zero, whatever the input: the comparison with
    0 is false of both (they are NaN, zero, positive or [+inf]). *)
Theorem length_and_dirsq_never_negative :
  forall px py pz : double,
    PrimFloat.ltb (momentum_length px py pz) 0 = false /\
    PrimFloat.ltb (dirsq_of px py pz) 0 = false.
Proof.
  intros px py pz. split; apply shape_not_negative.
  - unfold momentum_length. apply sqrt_shape. exact (magsq_shape px py pz).
  - unfold dirsq_of. destruct (normalized px py pz) as [[dx dy] dz].
    apply magsq_shape.
Qed.

(** * Whole runs *)

Lemma status_indices_app (t1 t2 : list call) :
  status_indices (t1 ++ t2) = status_indices t1 ++ status_indices t2.
Proof. apply flat_map_app. Qed.

Lemma added_indices_app (t1 t2 : list call) :
  added_indices (t1 ++ t2) = added_indices t1 ++ added_indices t2.
Proof. apply flat_map_app. Qed.

Lemma int_incr_small (i : nat) :
  (Z.of_nat i < INT_MAX)%Z -> int_incr (Z.of_nat i) = Z.of_nat (S i).
Proof.
  intros H. unfold int_incr.
  destruct (Z.gtb_spec (Z.of_nat i + 1) INT_MAX); lia.
Qed.

(** Every iteration prints exactly one status line, with the running
    index. *)
Lemma status_indices_body ind particle (h : hit) :
  status_indices (fst (body_of ind particle h)) = [ind].
Proof.
  rewrite body_of_eq.
  destruct (zero_length h); [| destruct (not_normalized h)]; reflexivity.
Qed.

Lemma added_indices_body ind particle (h : hit) :
  added_indices (fst (body_of ind particle h)) =
  if accepted h then [ind] else [].
Proof.
  rewrite body_of_eq. unfold accepted, skipped.
  destruct (zero_length h); [| destruct (not_normalized h)]; reflexivity.
Qed.

Lemma indices_read_loop (hs : list hit) :
  forall (i : nat) particle,
    (Z.of_nat (i + List.length hs) <= INT_MAX)%Z ->
    status_indices (read_loop (encode hs) (Z.of_nat i) particle) =
      map Z.of_nat (seq i (List.length hs)) /\
    added_indices (read_loop (encode hs) (Z.of_nat i) particle) =
      accepted_positions i hs.
Proof.
  induction hs as [|h hs IH]; intros i particle Hb; [split; reflexivity |].
  cbn [List.length] in Hb.
  rewrite encode_cons. rewrite <- (app_nil_r (encode hs)).
  rewrite read_loop_fields, app_nil_r.
  rewrite status_indices_app, added_indices_app.
  rewrite status_indices_body, added_indices_body.
  rewrite int_incr_small by lia.
  destruct (IH (S i) (snd (body_of (Z.of_nat i) particle h))) as [-> ->];
    [lia |].
  split; reflexivity.
Qed.

Lemma parsed_encode_app (hs : list hit) (f : FILE) :
  parsed (encode hs ++ f) = hs ++ parsed f.
Proof.
  induction hs as [|h hs IH]; [reflexivity |].
  rewrite encode_cons, <- app_assoc, parsed_fields, IH. reflexivity.
Qed.

(** Inside the loop the sink stays open, in its header or particle phase. *)
Lemma sink_run_read_loop (f : FILE) ind particle (st : sink_state) :
  st = HeaderOpen \/ st = ParticlesOpen ->
  sink_run (read_loop f ind particle) st = HeaderOpen \/
  sink_run (read_loop f ind particle) st = ParticlesOpen.
Proof.
  destruct (FILE_split f) as (tail & E & Ht).
  rewrite E. rewrite read_loop_encode by exact Ht. clear E.
  revert ind particle st.
  induction (parsed f) as [|h hs IH]; intros ind particle st Hst;
    [exact Hst |].
  rewrite encode_cons. rewrite <- (app_nil_r (encode hs)).
  rewrite read_loop_fields, app_nil_r. unfold sink_run.
  rewrite fold_left_app. apply IH.
  rewrite body_of_eq.
  destruct (zero_length h); [| destruct (not_normalized h)];
    destruct Hst as [-> | ->]; cbn; tauto.
Qed.

(** X10.  In a run over fewer than 2^31 records, the status lines number the
    scanned records 0, 1, 2, ... in input order, skipped records included,
    and the indices announced as added are the input positions of the
    records handed to the sink. *)
Theorem diagnostics_index_records :
  forall fs particle (argv : list string) (f : FILE),
    List.length argv = 3 -> fs (nth 1 argv "") = Some f ->
    (Z.of_nat (List.length (parsed f)) <= INT_MAX)%Z ->
    let tr := snd (main fs particle argv) in
    status_indices tr = map Z.of_nat (seq 0 (List.length (parsed f))) /\
    added_indices tr = accepted_positions 0 (parsed f).
Proof.
  intros fs particle argv f H Hf Hb tr. unfold tr.
  rewrite (main_converts fs particle argv f H Hf). cbn [snd].
  rewrite !status_indices_app, !added_indices_app.
  destruct (FILE_split f) as (tail & E & Ht).
  pose proof (read_loop_encode (parsed f) tail Ht 0%Z particle) as R.
  rewrite <- E in R. rewrite R.
  change (read_loop (encode (parsed f)) 0%Z particle)
    with (read_loop (encode (parsed f)) (Z.of_nat 0) particle).
  destruct (indices_read_loop (parsed f) 0 particle Hb) as [-> ->].
  cbn [prologue epilogue status_indices added_indices flat_map app].
  rewrite !app_nil_r. split; reflexivity.
Qed.

Lemma diagnostics_index_records_witness :
  let f := encode [mk_hit 1 1 1 0 0 0 3; mk_hit 0 0 0 1 0 0 5;
                   mk_hit 0 0 0 0x1p600 0 0 5; mk_hit 2 2 2 0 3 4 7]
           ++ [Num 9] in
  let tr := snd (main (only_file "in.txt" f) blank_particle sample_argv) in
  status_indices tr = [0; 1; 2; 3]%Z /\ added_indices tr = [1; 3]%Z.
Proof.
  intros f tr.
  refine (diagnostics_index_records (only_file "in.txt" f) blank_particle
            sample_argv f eq_refl eq_refl _).
  vm_compute. discriminate.
Defined.

(** X11.  Every run ends in one of two ways.  Either it exits with code 0,
    having created exactly the output file named by the second argument,
    closed and compressed it once, and opened and closed the input once; or
    it exits with code 1, having created no file, handed no record to any
    sink, and holding no open handle (nothing was opened, nothing is
    closed). *)
Theorem run_outcomes :
  forall fs particle (argv : list string),
    let code := fst (main fs particle argv) in
    let tr := snd (main fs particle argv) in
    (code = 0%Z /\ created tr = [nth 2 argv ""] /\
     count is_closeandgzip tr = 1 /\
     count is_fopen_ok tr = 1 /\ count is_fclose tr = 1) \/
    (code = 1%Z /\ created tr = [] /\ added tr = [] /\
     count is_closeandgzip tr = 0 /\
     count is_fopen_ok tr = 0 /\ count is_fclose tr = 0).
Proof.
  intros fs particle argv.
  destruct (Nat.eq_dec (List.length argv) 3) as [H | H].
  - destruct (fs (nth 1 argv "")) as [f|] eqn:Hf.
    + left. rewrite (main_converts fs particle argv f H Hf). cbn [fst snd].
      unfold created. rewrite !flat_map_app, !count_app.
      rewrite flat_map_read_loop by reflexivity.
      rewrite !count_read_loop by reflexivity.
      repeat split; reflexivity.
    + right. rewrite (main_unreadable fs particle argv H Hf).
      repeat split; reflexivity.
  - right. rewrite (main_usage fs particle argv H). repeat split; reflexivity.
Qed.

(** X12.  The sink is driven in order in every run: it is created before
    its header is written, the header is written before any record is
    added, and nothing touches it after it is closed.  A run that exits
    with code 0 leaves the sink closed; any other run never creates it. *)
Theorem sink_driven_in_order :
  forall fs particle (argv : list string),
    sink_run (snd (main fs particle argv)) NoSink =
    if (fst (main fs particle argv) =? 0)%Z then SinkClosed else NoSink.
Proof.
  intros fs particle argv.
  destruct (Nat.eq_dec (List.length argv) 3) as [H | H].
  - destruct (fs (nth 1 argv "")) as [f|] eqn:Hf.
    + rewrite (main_converts fs particle argv f H Hf). cbn [fst snd Z.eqb].
      unfold sink_run. rewrite !fold_left_app.
      change (fold_left sink_step (prologue (nth 1 argv "") (nth 2 argv ""))
                        NoSink) with HeaderOpen.
      destruct (sink_run_read_loop f 0%Z particle HeaderOpen (or_introl eq_refl))
        as [E | E]; unfold sink_run in E; rewrite E; reflexivity.
    + rewrite (main_unreadable fs particle argv H Hf). reflexivity.
  - rewrite (main_usage fs particle argv H). reflexivity.
Qed.

(** X13.  Records are converted independently: when an input consists of
    complete records followed by a second input, the records handed to the
    sink are those of a run on the complete records alone followed by those
    of a run on the second input. *)
Theorem concatenated_inputs :
  forall fs1 fs2 fs12 particle1 particle2 particle12 (argv : list string)
         (hs : list hit) (f2 : FILE),
    List.length argv = 3 ->
    fs1 (nth 1 argv "") = Some (encode hs) ->
    fs2 (nth 1 argv "") = Some f2 ->
    fs12 (nth 1 argv "") = Some (encode hs ++ f2) ->
    added (snd (main fs12 particle12 argv)) =
    added (snd (main fs1 particle1 argv))
    ++ added (snd (main fs2 particle2 argv)).
Proof.
  intros fs1 fs2 fs12 p1 p2 p12 argv hs f2 H H1 H2 H12.
  rewrite (added_main fs12 p12 argv _ H H12).
  rewrite (added_main fs1 p1 argv _ H H1).
  rewrite (added_main fs2 p2 argv _ H H2).
  assert (P : parsed (encode hs) = hs).
  { pose proof (parsed_encode_app hs []) as P.
    rewrite !app_nil_r in P. exact P. }
  rewrite parsed_encode_app, P, filter_app, map_app. reflexivity.
Qed.

Lemma concatenated_inputs_witness :
  let hs := [mk_hit 0 0 0 1 0 0 5; mk_hit 1 1 1 0 0 0 3] in
  let f2 := fields (mk_hit 2 2 2 0 3 4 7) ++ [Num 1; Junk] in
  added (snd (main (only_file "in.txt" (encode hs ++ f2)) blank_particle
                   sample_argv)) =
  added (snd (main (only_file "in.txt" (encode hs)) blank_particle
                   sample_argv))
  ++ added (snd (main (only_file "in.txt" f2) used_particle sample_argv)).
Proof.
  exact (concatenated_inputs (only_file "in.txt" _) (only_file "in.txt" _)
           (only_file "in.txt" _) blank_particle used_particle blank_particle
           sample_argv [mk_hit 0 0 0 1 0 0 5; mk_hit 1 1 1 0 0 0 3]
           (fields (mk_hit 2 2 2 0 3 4 7) ++ [Num 1; Junk])
           eq_refl eq_refl eq_refl eq_refl).
Defined.

(** * Directions of finite momenta *)

Section FiniteDirectionFacts.
Import Binary64.

Lemma finite_is_finite (x : float) :
  finite (Prim2SF x) -> is_finite x = true.
Proof.
  unfold is_finite, is_nan, is_infinity.
  rewrite !FloatAxioms.eqb_spec, abs_spec.
  change (Prim2SF infinity) with (S754_infinity false).
  destruct (Prim2SF x) as [[|]|s| |[|] m e]; cbn [finite]; try tauto;
    intros _; unfold SFeqb; cbn;
    rewrite ?Z.compare_refl, ?Pos.compare_cont_refl; reflexivity.
Qed.

(** A number that is not an infinity is finite. *)
Lemma number_not_inf_finite (x : spec_float) :
  number x -> (forall s, x <> S754_infinity s) -> finite x.
Proof.
  intros N Hi. destruct x as [s|s| |s m e]; cbn; try exact I.
  - exact (Hi s eq_refl).
  - exact (N eq_refl).
Qed.

(** The squared magnitude of a vector of numbers with an infinite component
    is [+inf]. *)
Lemma magsq_inf (dx dy dz : float) :
  number (Prim2SF dx) -> number (Prim2SF dy) -> number (Prim2SF dz) ->
  (exists s, Prim2SF dx = S754_infinity s) \/
  (exists s, Prim2SF dy = S754_infinity s) \/
  (exists s, Prim2SF dz = S754_infinity s) ->
  Prim2SF (magsq (dx, dy, dz)) = S754_infinity false.
Proof.
  intros Nx Ny Nz H. cbn [magsq].
  pose proof (mul_self_nonneg dx Nx) as Sx.
  pose proof (mul_self_nonneg dy Ny) as Sy.
  pose proof (mul_self_nonneg dz Nz) as Sz.
  destruct H as [[s H] | [[s H] | [s H]]].
  - apply add_inf_l; [| exact Sz].
    apply add_inf_l; [| exact Sy]. exact (mul_self_inf dx s H).
  - apply add_inf_l; [| exact Sz].
    apply add_inf_r; [exact Sx |]. exact (mul_self_inf dy s H).
  - apply add_inf_r; [apply add_nonneg; assumption |].
    exact (mul_self_inf dz s H).
Qed.

Lemma inf_out_of_tolerance (d : float) :
  Prim2SF d = S754_infinity false -> within_tolerance d = false.
Proof.
  intros H. unfold within_tolerance.
  rewrite leb_spec, abs_spec, sub_spec, H. reflexivity.
Qed.

(** A component of a vector of numbers whose squared magnitude is within
    the tolerance of one is finite. *)
Lemma within_tolerance_finite (dx dy dz : float) :
  number (Prim2SF dx) -> number (Prim2SF dy) -> number (Prim2SF dz) ->
  within_tolerance (magsq (dx, dy, dz)) = true ->
  finite (Prim2SF dx) /\ finite (Prim2SF dy) /\ finite (Prim2SF dz).
Proof.
  intros Nx Ny Nz W.
  assert (Hi : forall s, Prim2SF dx <> S754_infinity s /\
                         Prim2SF dy <> S754_infinity s /\
                         Prim2SF dz <> S754_infinity s).
  { intros s. repeat split; intros E;
      rewrite (inf_out_of_tolerance (magsq (dx, dy, dz))) in W;
      try discriminate W; apply magsq_inf; eauto. }
  repeat split; apply number_not_inf_finite; try assumption;
    intros s; apply (Hi s).
Qed.

End FiniteDirectionFacts.

(** X14.  When the three momentum components are finite, every record
    handed to the sink has finite direction components: no NaN and no
    infinity reaches the output through the direction. *)
Theorem finite_momentum_finite_direction :
  forall ind particle (h : hit) p,
    is_finite (hpx h) = true -> is_finite (hpy h) = true ->
    is_finite (hpz h) = true ->
    In p (added (fst (body_of ind particle h))) ->
    let '(dx, dy, dz) := direction p in
    is_finite dx && is_finite dy && is_finite dz = true.
Proof.
  intros ind particle h p Hx Hy Hz.
  pose proof (momentum_length_nonneg (hpx h) (hpy h) (hpz h)
                (finite_number _ (is_finite_finite _ Hx))
                (finite_number _ (is_finite_finite _ Hy))
                (finite_number _ (is_finite_finite _ Hz))) as HL.
  rewrite added_body, (accepted_when_finite h Hx Hy Hz).
  unfold positive_length.
  destruct (PrimFloat.ltb 0 _) eqn:E; [| intros []].
  destruct (within_tolerance _) eqn:W; [| intros []].
  intros [<- | []].
  assert (H0 : PrimFloat.eqb (momentum_length (hpx h) (hpy h) (hpz h)) 0
               = false)
    by (rewrite (nonneg_eqb_zero _ HL), E; reflexivity).
  unfold dirsq_of, normalized in W. cbn [record_of direction].
  unfold normalized.
  destruct (within_tolerance_finite _ _ _
              (div_number _ _ (is_finite_finite _ Hx) HL H0)
              (div_number _ _ (is_finite_finite _ Hy) HL H0)
              (div_number _ _ (is_finite_finite _ Hz) HL H0) W)
    as (Fx & Fy & Fz).
  rewrite (finite_is_finite _ Fx), (finite_is_finite _ Fy),
    (finite_is_finite _ Fz).
  reflexivity.
Qed.

Lemma finite_momentum_finite_direction_witness :
  let '(dx, dy, dz) := direction (record_of (mk_hit 1 2 3 3 (-4) 12 7)) in
  is_finite dx && is_finite dy && is_finite dz = true.
Proof.
  exact (finite_momentum_finite_direction 0 blank_particle
           (mk_hit 1 2 3 3 (-4) 12 7) (record_of (mk_hit 1 2 3 3 (-4) 12 7))
           eq_refl eq_refl eq_refl (or_introl eq_refl)).
Defined.
